(** * TaskGlitch: the business logic of the sales-task tracker

    A shallow embedding of [App.tsx], [types.ts] and [constants.ts], with the
    helpers of [utils/taskUtils] that [App.tsx] imports.

    A JavaScript number is an IEEE 754 binary64.  It is embedded as the
    rational it denotes, or one of the three special values ([NaN],
    [Infinity], [-Infinity]).  Addition and division compute the exact result
    and round it to the nearest binary64, ties to even, with gradual
    underflow and overflow to an infinity, as the hardware does; comparisons
    are exact.  The sign of zero is not modelled: the one place where it
    shows, a division by zero, is behind a guard wherever the program
    divides. *)

From Stdlib Require Import List ZArith QArith Qround Qabs Qpower Bool String Sorted Permutation Lia Lqa.
From Stdlib Require Import PrimFloat SpecFloat FloatOps.
Import ListNotations.

Local Open Scope Q_scope.

(** ** JavaScript numbers *)

Inductive number : Type :=
| Finite (q : Q)
| PosInf
| NegInf
| NaN.

Definition isFinite (x : number) : bool :=
  match x with Finite _ => true | _ => false end.

Definition isNaN (x : number) : bool :=
  match x with NaN => true | _ => false end.

(** Equality of numbers as values: finite numbers are compared as rationals. *)
Definition num_eq (x y : number) : Prop :=
  match x, y with
  | Finite a, Finite b => a == b
  | PosInf, PosInf => True
  | NegInf, NegInf => True
  | NaN, NaN => True
  | _, _ => False
  end.

Definition Qltb (a b : Q) : bool := negb (Qle_bool b a).

Definition Qzerob (a : Q) : bool := Qeq_bool a 0.

(** [x < y] of JavaScript; every comparison with [NaN] is false. *)
Definition js_lt (x y : number) : bool :=
  match x, y with
  | NaN, _ | _, NaN => false
  | Finite a, Finite b => Qltb a b
  | Finite _, PosInf => true
  | Finite _, NegInf => false
  | PosInf, _ => false
  | NegInf, NegInf => false
  | NegInf, _ => true
  end.

(** [x <= y] of JavaScript. *)
Definition js_le (x y : number) : bool :=
  match x, y with
  | NaN, _ | _, NaN => false
  | Finite a, Finite b => Qle_bool a b
  | Finite _, PosInf => true
  | Finite _, NegInf => false
  | PosInf, PosInf => true
  | PosInf, _ => false
  | NegInf, _ => true
  end.

(** [x > y] and [x >= y] are the converse comparisons. *)
Definition js_gt (x y : number) : bool := js_lt y x.
Definition js_ge (x y : number) : bool := js_le y x.

(** *** Rounding to binary64 *)

(** The integer nearest to [r], the even one of two that are equally near. *)
Definition roundHalfEven (r : Q) : Z :=
  let f := Qfloor r in
  match Qcompare (r - inject_Z f) (1 # 2) with
  | Lt => f
  | Gt => (f + 1)%Z
  | Eq => if Z.even f then f else (f + 1)%Z
  end.

(** For [q > 0], the exponent [k] with [2 ^ k <= q < 2 ^ (k + 1)]. *)
Definition Qlog2 (q : Q) : Z :=
  let k := (Z.log2 (Qnum q) - Z.log2 (Zpos (Qden q)))%Z in
  if Qle_bool (2 ^ k) q then k else (k - 1)%Z.

(** For [q > 0], the binary64 nearest to [q], or [None] on overflow: a
    significand of 53 bits on a last bit of weight [2 ^ e], [e] no less than
    [-1074]; a result of [2 ^ 1024] or more is out of range. *)
Definition round64pos (q : Q) : option Q :=
  let e := Z.max (Qlog2 q - 52) (-1074) in
  let v := inject_Z (roundHalfEven (q / 2 ^ e)) * 2 ^ e in
  if Qle_bool (2 ^ 1024) v then None else Some (Qred v).

(** The binary64 that an operation of exact result [q] returns. *)
Definition round64 (q : Q) : number :=
  if Qzerob q then Finite 0
  else if Qltb q 0 then
    match round64pos (- q) with Some v => Finite (- v) | None => NegInf end
  else
    match round64pos q with Some v => Finite v | None => PosInf end.

(** [x + y]. *)
Definition js_add (x y : number) : number :=
  match x, y with
  | NaN, _ | _, NaN => NaN
  | Finite a, Finite b => round64 (a + b)
  | PosInf, NegInf | NegInf, PosInf => NaN
  | PosInf, _ | _, PosInf => PosInf
  | NegInf, _ | _, NegInf => NegInf
  end.

(** [x / y]: dividing by zero gives an infinity, or [NaN] for [0 / 0]. *)
Definition js_div (x y : number) : number :=
  match x, y with
  | NaN, _ | _, NaN => NaN
  | Finite a, Finite b =>
      if Qzerob b then
        if Qzerob a then NaN else if Qltb 0 a then PosInf else NegInf
      else round64 (a / b)
  | Finite _, _ => Finite 0
  | _, PosInf | _, NegInf => NaN
  | PosInf, Finite b => if Qltb b 0 then NegInf else PosInf
  | NegInf, Finite b => if Qltb b 0 then PosInf else NegInf
  end.

(** ToBoolean on a number: [0] and [NaN] are falsy. *)
Definition truthy (x : number) : bool :=
  match x with
  | NaN => false
  | Finite a => negb (Qzerob a)
  | _ => true
  end.

(** [parseFloat(x.toFixed(2))].  [toFixed] prints the special values and the
    numbers of magnitude at least [10^21] as [String(x)], which [parseFloat]
    reads back; otherwise it picks the integer [n] with [n / 100] closest to
    [|x|], the larger one on a tie, and prints it with two decimals and the
    sign of [x]; [parseFloat] returns the binary64 nearest to that decimal. *)
Definition toFixed2 (x : number) : number :=
  match x with
  | Finite a =>
      if Qle_bool (10 ^ 21) (Qabs a) then Finite a
      else
        let n := Qfloor (Qabs a * 100 + (1 # 2)) in
        if Qltb a 0 then round64 (- (inject_Z n / 100)) else round64 (inject_Z n / 100)
  | _ => x
  end.

(** The number of elements of an array, as a number. *)
Definition js_length {A : Type} (l : list A) : number :=
  Finite (inject_Z (Z.of_nat (List.length l))).

(** ** types.ts *)

Inductive Priority : Type := HIGH | MEDIUM | LOW.

Inductive Status : Type := TODO | IN_PROGRESS | DONE.

(** [createdAt] holds [Date.now()], a whole number of milliseconds. *)
Record Task : Type := mkTask {
  id : string;
  title : string;
  revenue : number;
  timeTaken : number;
  roi : number;
  priority : Priority;
  status : Status;
  notes : string;
  createdAt : Z
}.

(** ** constants.ts *)

Definition PRIORITY_ORDER (p : Priority) : Z :=
  match p with
  | HIGH => 3
  | MEDIUM => 2
  | LOW => 1
  end%Z.

(** ** utils/taskUtils *)

(** Modelled from the spec: [calculateRoi] of [utils/taskUtils], which is not
    among the sources.  It returns [revenue / timeTaken] when [timeTaken > 0]
    and [0] otherwise. *)
Definition calculateRoi (revenue timeTaken : number) : number :=
  if js_gt timeTaken (Finite 0) then js_div revenue timeTaken else Finite 0.

(** Modelled from the spec: the comparator of [sortTasks] of [utils/taskUtils],
    which is not among the sources.  A negative result puts [a] before [b]:
    priority descending by [PRIORITY_ORDER], then creation time descending. *)
Definition compareTasks (a b : Task) : Z :=
  let byPriority := (PRIORITY_ORDER (priority b) - PRIORITY_ORDER (priority a))%Z in
  if (byPriority =? 0)%Z then (createdAt b - createdAt a)%Z else byPriority.

(** [Array.prototype.sort] is a stable comparison sort.  It is embedded as an
    insertion sort that moves an element only past the elements that the
    comparator puts strictly before it. *)
Fixpoint insertSorted {A : Type} (cmp : A -> A -> Z) (x : A) (l : list A) : list A :=
  match l with
  | [] => [x]
  | y :: l' => if (0 <? cmp x y)%Z then y :: insertSorted cmp x l' else x :: l
  end.

Definition arraySort {A : Type} (cmp : A -> A -> Z) (l : list A) : list A :=
  fold_right (insertSorted cmp) [] l.

(** The comparator lets [x] stand before [y]. *)
Definition mayPrecede {A : Type} (cmp : A -> A -> Z) (x y : A) : Prop :=
  (cmp x y <= 0)%Z.

(** [p] is a higher priority than [q]: High above Medium above Low. *)
Definition outranks (p q : Priority) : bool :=
  match p, q with
  | HIGH, MEDIUM | HIGH, LOW | MEDIUM, LOW => true
  | _, _ => false
  end.

(** Modelled from the spec: [sortTasks] of [utils/taskUtils], which is not
    among the sources.  It returns the tasks in a new list, sorted stably by
    [compareTasks]. *)
Definition sortTasks (tasks : list Task) : list Task :=
  arraySort compareTasks tasks.

Definition Priority_eqb (p q : Priority) : bool :=
  match p, q with
  | HIGH, HIGH | MEDIUM, MEDIUM | LOW, LOW => true
  | _, _ => false
  end.

(** [t] has the priority and the creation time of [k]. *)
Definition sameKey (k t : Task) : bool :=
  Priority_eqb (priority t) (priority k) && (createdAt t =? createdAt k)%Z.

(** Arrays are objects: a store of arrays addressed by references, to tell a
    sort of a copy from a sort in place. *)
Definition ref : Type := nat.
Definition store : Type := list (list Task).

Definition readArray (r : ref) (h : store) : option (list Task) := nth_error h r.

Definition allocArray (a : list Task) (h : store) : ref * store :=
  (List.length h, h ++ [a]).

Fixpoint writeArray (r : ref) (a : list Task) (h : store) : store :=
  match h, r with
  | [], _ => []
  | _ :: h', O => a :: h'
  | b :: h', S r' => b :: writeArray r' a h'
  end.

(** Modelled from the spec: [sortTasks] on the store, as [[...tasks].sort(cmp)]:
    the argument is copied to a new array and the copy is sorted in place. *)
Definition sortTasksRef (r : ref) (h : store) : option (ref * store) :=
  match readArray r h with
  | None => None
  | Some a =>
      let (r', h') := allocArray a h in
      match readArray r' h' with
      | None => None
      | Some copy => Some (r', writeArray r' (arraySort compareTasks copy) h')
      end
  end.

(** Modelled from the spec: [getPerformanceGrade] of [utils/taskUtils], which
    is not among the sources.  The spec fixes its shape, a cascade of
    thresholds from the top grade down, and leaves the thresholds open: they
    are the parameter [bands], with [lowest] the grade below every threshold. *)
Fixpoint getPerformanceGrade (bands : list (Q * string)) (lowest : string)
    (avgRoi : number) : string :=
  match bands with
  | [] => lowest
  | (threshold, grade) :: rest =>
      if js_ge avgRoi (Finite threshold) then grade
      else getPerformanceGrade rest lowest avgRoi
  end.

(** The position of the grade in the cascade: [0] is the top grade. *)
Fixpoint gradeBand (bands : list (Q * string)) (avgRoi : number) : nat :=
  match bands with
  | [] => O
  | (threshold, _) :: rest =>
      if js_ge avgRoi (Finite threshold) then O else S (gradeBand rest avgRoi)
  end.

(** The grades from the top one down, and the place of a grade among them:
    [0] for the top grade. *)
Definition gradeLabels (bands : list (Q * string)) (lowest : string) : list string :=
  map snd bands ++ [lowest].

Fixpoint gradeRank (labels : list string) (grade : string) : nat :=
  match labels with
  | [] => O
  | label :: rest =>
      if (grade =? label)%string then O else S (gradeRank rest grade)
  end.

(** ** App.tsx *)

Record TaskSummary : Type := mkTaskSummary {
  totalRevenue : number;
  avgRoi : number;
  efficiency : number;
  performanceGrade : string
}.

(** The state of the component that the handlers read and write, with the
    console and the number of pending [setLastDeletedTask(null)] timers. *)
Record AppState : Type := mkAppState {
  tasks : list Task;
  isLoading : bool;
  lastDeletedTask : option Task;
  showSnackbar : bool;
  editingTask : option Task;
  isAdding : bool;
  console : list (string * string);
  clearTimers : nat
}.

Definition initialState : AppState :=
  {| tasks := []; isLoading := true; lastDeletedTask := None;
     showSnackbar := false; editingTask := None; isAdding := false;
     console := []; clearTimers := O |}.

Definition setTasks (f : list Task -> list Task) (s : AppState) : AppState :=
  {| tasks := f (tasks s); isLoading := isLoading s;
     lastDeletedTask := lastDeletedTask s; showSnackbar := showSnackbar s;
     editingTask := editingTask s; isAdding := isAdding s;
     console := console s; clearTimers := clearTimers s |}.

Definition setIsLoading (b : bool) (s : AppState) : AppState :=
  {| tasks := tasks s; isLoading := b;
     lastDeletedTask := lastDeletedTask s; showSnackbar := showSnackbar s;
     editingTask := editingTask s; isAdding := isAdding s;
     console := console s; clearTimers := clearTimers s |}.

Definition setLastDeletedTask (t : option Task) (s : AppState) : AppState :=
  {| tasks := tasks s; isLoading := isLoading s;
     lastDeletedTask := t; showSnackbar := showSnackbar s;
     editingTask := editingTask s; isAdding := isAdding s;
     console := console s; clearTimers := clearTimers s |}.

Definition setShowSnackbar (b : bool) (s : AppState) : AppState :=
  {| tasks := tasks s; isLoading := isLoading s;
     lastDeletedTask := lastDeletedTask s; showSnackbar := b;
     editingTask := editingTask s; isAdding := isAdding s;
     console := console s; clearTimers := clearTimers s |}.

Definition setEditingTask (t : option Task) (s : AppState) : AppState :=
  {| tasks := tasks s; isLoading := isLoading s;
     lastDeletedTask := lastDeletedTask s; showSnackbar := showSnackbar s;
     editingTask := t; isAdding := isAdding s;
     console := console s; clearTimers := clearTimers s |}.

Definition setIsAdding (b : bool) (s : AppState) : AppState :=
  {| tasks := tasks s; isLoading := isLoading s;
     lastDeletedTask := lastDeletedTask s; showSnackbar := showSnackbar s;
     editingTask := editingTask s; isAdding := b;
     console := console s; clearTimers := clearTimers s |}.

Definition consoleError (msg error : string) (s : AppState) : AppState :=
  {| tasks := tasks s; isLoading := isLoading s;
     lastDeletedTask := lastDeletedTask s; showSnackbar := showSnackbar s;
     editingTask := editingTask s; isAdding := isAdding s;
     console := console s ++ [(msg, error)]; clearTimers := clearTimers s |}.

(** [setTimeout(() => setLastDeletedTask(null), 300)]. *)
Definition scheduleClear (s : AppState) : AppState :=
  {| tasks := tasks s; isLoading := isLoading s;
     lastDeletedTask := lastDeletedTask s; showSnackbar := showSnackbar s;
     editingTask := editingTask s; isAdding := isAdding s;
     console := console s; clearTimers := S (clearTimers s) |}.

(** *** Effects: state and exceptions

    A computation reads and writes the state and completes normally or by
    throwing. *)
Inductive completion (A : Type) : Type :=
| Normal (a : A)
| Throw (e : string).

Arguments Normal {A} a.
Arguments Throw {A} e.

Definition M (A : Type) : Type := AppState -> completion A * AppState.

Definition ret {A : Type} (a : A) : M A := fun s => (Normal a, s).

Definition bind {A B : Type} (m : M A) (k : A -> M B) : M B :=
  fun s =>
    match m s with
    | (Normal a, s') => k a s'
    | (Throw e, s') => (Throw e, s')
    end.

Definition throw {A : Type} (e : string) : M A := fun s => (Throw e, s).

Definition tryCatch {A : Type} (body : M A) (handler : string -> M A) : M A :=
  fun s =>
    match body s with
    | (Normal a, s') => (Normal a, s')
    | (Throw e, s') => handler e s'
    end.

Definition modify (f : AppState -> AppState) : M unit :=
  fun s => (Normal tt, f s).

Definition when (b : bool) (m : M unit) : M unit := if b then m else ret tt.

Notation "x <- m ;; k" := (bind m (fun x => k))
  (at level 61, m at next level, right associativity).
Notation "m ;; k" := (bind m (fun _ => k))
  (at level 61, right associativity).

(** A settled promise, and [await] on it. *)
Inductive Promise (A : Type) : Type :=
| Resolved (a : A)
| Rejected (error : string).

Arguments Resolved {A} a.
Arguments Rejected {A} error.

Definition await {A : Type} (p : Promise A) : M A :=
  match p with
  | Resolved a => ret a
  | Rejected error => throw error
  end.

(** [init] of the mount effect; [mounted] is the flag when [await] resumes. *)
Definition init (fetchTasks : Promise (list Task)) (mounted : bool) : M unit :=
  tryCatch
    (data <- await fetchTasks ;;
     when mounted
       (modify (setTasks (fun _ => data)) ;;
        modify (setIsLoading false)))
    (fun error =>
       modify (consoleError "Failed to load tasks" error) ;;
       when mounted (modify (setIsLoading false))).

Definition closeSnackbar (s : AppState) : AppState :=
  scheduleClear (setShowSnackbar false s).

(** A pending timer of [closeSnackbar] fires. *)
Definition clearTimerFires (s : AppState) : AppState :=
  match clearTimers s with
  | O => s
  | S n =>
      {| tasks := tasks s; isLoading := isLoading s;
         lastDeletedTask := None; showSnackbar := showSnackbar s;
         editingTask := editingTask s; isAdding := isAdding s;
         console := console s; clearTimers := n |}
  end.

Section Summary.

Variable bands : list (Q * string).
Variable lowest : string.

Definition sumOf (f : Task -> number) (l : list Task) : number :=
  fold_left (fun acc t => js_add acc (f t)) l (Finite 0).

(** [avgRoi] of [summary] before it is rounded. *)
Definition rawAvgRoi (l : list Task) : number :=
  if truthy (js_length l) then js_div (sumOf roi l) (js_length l) else Finite 0.

Definition summary (l : list Task) : TaskSummary :=
  let totalRevenue := sumOf revenue l in
  let avgRoi := rawAvgRoi l in
  let totalTime := sumOf timeTaken l in
  {| totalRevenue := totalRevenue;
     avgRoi := toFixed2 avgRoi;
     efficiency :=
       if truthy totalTime then toFixed2 (js_div totalRevenue totalTime)
       else Finite 0;
     performanceGrade := getPerformanceGrade bands lowest avgRoi |}.

End Summary.

Definition handleDelete (task : Task) (s : AppState) : AppState :=
  setShowSnackbar true
    (setTasks (filter (fun t => negb (id t =? id task)%string))
       (setLastDeletedTask (Some task) s)).

Definition handleUndo (s : AppState) : AppState :=
  match lastDeletedTask s with
  | Some t => closeSnackbar (setTasks (fun prev => prev ++ [t]) s)
  | None => s
  end.

(** The fields of the submitted form; [formRevenue] and [formTimeTaken] are
    [Number(formData.get('revenue'))] and [Number(formData.get('timeTaken'))]. *)
Record FormData : Type := mkFormData {
  formTitle : string;
  formRevenue : number;
  formTimeTaken : number;
  formPriority : Priority;
  formStatus : Status;
  formNotes : string
}.

(** [{ ...t, ...taskData }]: the form's fields and [roi] replace those of [t]. *)
Definition mergeTaskData (t : Task) (form : FormData) (r : number) : Task :=
  {| id := id t;
     title := formTitle form;
     revenue := formRevenue form;
     timeTaken := formTimeTaken form;
     roi := r;
     priority := formPriority form;
     status := formStatus form;
     notes := formNotes form;
     createdAt := createdAt t |}.

(** [uuid] is [crypto.randomUUID()] and [now] is [Date.now()]. *)
Definition handleSaveTask (form : FormData) (uuid : string) (now : Z)
    (s : AppState) : AppState :=
  let revenue := formRevenue form in
  let timeTaken := formTimeTaken form in
  let roi := calculateRoi revenue timeTaken in
  match editingTask s with
  | Some editing =>
      setEditingTask None
        (setTasks
           (map (fun t => if (id t =? id editing)%string
                          then mergeTaskData t form roi else t)) s)
  | None =>
      let newTask :=
        {| id := uuid;
           title := formTitle form;
           revenue := revenue;
           timeTaken := timeTaken;
           roi := roi;
           priority := formPriority form;
           status := formStatus form;
           notes := formNotes form;
           createdAt := now |} in
      setIsAdding false (setTasks (fun prev => prev ++ [newTask]) s)
  end.

(** *** Strings and the filtered list *)

(** [s.includes(sub)]: [sub] occurs in [s] at some position. *)
Fixpoint includes (s sub : string) : bool :=
  prefix sub s ||
  match s with
  | EmptyString => false
  | String _ s' => includes s' sub
  end.

(** The string values of the enumeration [Priority] of [types.ts]. *)
Definition PriorityValue (p : Priority) : string :=
  match p with
  | HIGH => "High"
  | MEDIUM => "Medium"
  | LOW => "Low"
  end.

Section Filtered.

(** [String.prototype.toLowerCase]. *)
Variable toLowerCase : string -> string.

(** The test of [tasks.filter] in [filteredAndSortedTasks]; a priority is
    compared with [filterPriority] as a string. *)
Definition matchesFilters (search filterPriority : string) (t : Task) : bool :=
  includes (toLowerCase (title t)) (toLowerCase search) &&
  ((filterPriority =? "All")%string ||
   (PriorityValue (priority t) =? filterPriority)%string).

(** The variable [result]: the tasks that pass the search and the filter. *)
Definition visibleTasks (search filterPriority : string) (l : list Task) : list Task :=
  filter (matchesFilters search filterPriority) l.

Definition filteredAndSortedTasks (search filterPriority : string)
    (l : list Task) : list Task :=
  sortTasks (visibleTasks search filterPriority l).

End Filtered.

(** *** The persistence effect *)

(** [if (!isLoading) saveTasksToStorage(tasks)]: the list handed to
    [saveTasksToStorage] when the effect runs, if it is called. *)
Definition persistenceEffect (s : AppState) : option (list Task) :=
  if negb (isLoading s) then Some (tasks s) else None.

(** *** Events *)

(** [isOpen] of the form modal. *)
Definition formModalOpen (s : AppState) : bool :=
  isAdding s || match editingTask s with Some _ => true | None => false end.

(** What the user and the timers do to the state once it is loaded. *)
Inductive Event : Type :=
| Delete (task : Task)
| Undo
| CloseSnackbar
| ClearTimer
| SaveTask (form : FormData) (uuid : string) (now : Z)
| NewTask
| EditTask (t : Task)
| CloseModal.

Definition step (e : Event) (s : AppState) : AppState :=
  match e with
  | Delete task => handleDelete task s
  | Undo => handleUndo s
  | CloseSnackbar => closeSnackbar s
  | ClearTimer => clearTimerFires s
  | SaveTask form uuid now => handleSaveTask form uuid now s
  | NewTask => setIsAdding true s
  | EditTask t => setEditingTask (Some t) s
  | CloseModal => setEditingTask None (setIsAdding false s)
  end.

(** [uuid] is the id of no task of the list and not of the task in the undo
    buffer. *)
Definition freshId (uuid : string) (s : AppState) : Prop :=
  ~ In uuid (map id (tasks s)) /\
  forall t : Task, lastDeletedTask s = Some t -> id t <> uuid.

(** When the rendered page offers the event: a card shows a task of the list,
    the snackbar with its buttons and its auto-dismiss timer exists while
    [showSnackbar] holds, the form exists while its modal is open; and
    [crypto.randomUUID()] returns an id not in use. *)
Definition enabled (e : Event) (s : AppState) : Prop :=
  match e with
  | Delete task => In task (tasks s)
  | Undo => showSnackbar s = true
  | CloseSnackbar => showSnackbar s = true
  | ClearTimer => clearTimers s <> O
  | SaveTask _ uuid _ =>
      formModalOpen s = true /\ (editingTask s = None -> freshId uuid s)
  | NewTask => True
  | EditTask t => In t (tasks s)
  | CloseModal => True
  end.

Fixpoint run (es : list Event) (s : AppState) : AppState :=
  match es with
  | [] => s
  | e :: es' => run es' (step e s)
  end.

(** Every event of the sequence is enabled when its turn comes. *)
Fixpoint enabledRun (es : list Event) (s : AppState) : Prop :=
  match es with
  | [] => True
  | e :: es' => enabled e s /\ enabledRun es' (step e s)
  end.


(** The [roi] of [t] is the one a save computes from its other fields. *)
Definition roiDerived (t : Task) : Prop :=
  roi t = calculateRoi (revenue t) (timeTaken t).

Definition allRoiDerived (s : AppState) : Prop :=
  Forall roiDerived (tasks s) /\
  forall t : Task, lastDeletedTask s = Some t -> roiDerived t.

(** *** Hardware numbers

    The primitive floats are the binary64 of the machine; they are read here
    as numbers, to compare the operations above with the machine's. *)
Definition ofSpecFloat (x : spec_float) : number :=
  match x with
  | S754_zero _ => Finite 0
  | S754_infinity false => PosInf
  | S754_infinity true => NegInf
  | S754_nan => NaN
  | S754_finite s m e =>
      Finite (Qred ((if s then -1 else 1) * inject_Z (Zpos m) * 2 ^ e))
  end.

Definition ofFloat (x : float) : number := ofSpecFloat (Prim2SF x).

Definition num_eqb (x y : number) : bool :=
  match x, y with
  | Finite a, Finite b => Qeq_bool a b
  | PosInf, PosInf | NegInf, NegInf | NaN, NaN => true
  | _, _ => false
  end.

(** The model's sum and quotient of two machine numbers are the machine's. *)
Definition agreesWithHardware (x y : float) : bool :=
  num_eqb (js_add (ofFloat x) (ofFloat y)) (ofFloat (x + y)%float) &&
  num_eqb (js_div (ofFloat x) (ofFloat y)) (ofFloat (x / y)%float).

(** ** Sample data *)

(** A task as a save stores it. *)
Definition sampleTask (i : string) (rev time : Q) (p : Priority) (created : Z) : Task :=
  {| id := i; title := "Sample"; revenue := Finite rev; timeTaken := Finite time;
     roi := calculateRoi (Finite rev) (Finite time);
     priority := p; status := TODO; notes := ""; createdAt := created |}.

Definition sampleBands : list (Q * string) :=
  [(500, "Excellent"%string); (200, "Good"%string)].

Definition sampleLowest : string := "Needs Improvement".

Definition sampleState : AppState :=
  setIsLoading false
    (setTasks (fun _ => [sampleTask "1" 5000 10 HIGH 200; sampleTask "2" 2000 5 MEDIUM 100])
       initialState).

(** [toLowerCase] on text of the letters, digits and signs of ASCII. *)
Definition asciiLower (c : Ascii.ascii) : Ascii.ascii :=
  let n := Ascii.nat_of_ascii c in
  if ((65 <=? n) && (n <=? 90))%nat then Ascii.ascii_of_nat (n + 32) else c.

Fixpoint asciiToLowerCase (s : string) : string :=
  match s with
  | EmptyString => EmptyString
  | String c s' => String (asciiLower c) (asciiToLowerCase s')
  end.

Definition sampleForm : FormData :=
  {| formTitle := "Renewal"; formRevenue := Finite 900; formTimeTaken := Finite 3;
     formPriority := LOW; formStatus := TODO; formNotes := EmptyString |}.

(** A session: delete the first task, undo, open the form, save a new task. *)
Definition sampleRun : list Event :=
  [Delete (sampleTask "1" 5000 10 HIGH 200); Undo; NewTask; SaveTask sampleForm "3" 300].

(** * Properties *)

(** ** Numbers *)



Lemma Qzerob_zero (a : Q) : Qzerob a = true <-> a == 0.
Proof. unfold Qzerob. apply Qeq_bool_iff. Qed.


Lemma num_eq_refl (x : number) : num_eq x x.
Proof. destruct x; simpl; auto. reflexivity. Qed.

Lemma num_eq_sym (x y : number) : num_eq x y -> num_eq y x.
Proof. destruct x, y; simpl; auto. intro H. symmetry. exact H. Qed.

Lemma num_eq_trans (x y z : number) : num_eq x y -> num_eq y z -> num_eq x z.
Proof.
  destruct x, y, z; simpl; auto; try contradiction.
  intros H1 H2. rewrite H1. exact H2.
Qed.


(** ** Rounding *)

Lemma two_neq_0 : ~ 2 == 0.
Proof. discriminate. Qed.

Lemma Qpow2_pos (k : Z) : 0 < 2 ^ k.
Proof. apply Qpower_0_lt. reflexivity. Qed.

Lemma Qpow2_inject (k : Z) : (0 <= k)%Z -> inject_Z (2 ^ k) == 2 ^ k.
Proof. intro H. apply (Zpower_Qpower 2 k H). Qed.

Lemma roundHalfEven_le (r : Q) : (roundHalfEven r <= Qfloor r + 1)%Z.
Proof.
  unfold roundHalfEven.
  destruct (Qcompare (r - inject_Z (Qfloor r)) (1 # 2)); [|lia|lia].
  destruct (Z.even (Qfloor r)); lia.
Qed.

Lemma roundHalfEven_ge (r : Q) : (Qfloor r <= roundHalfEven r)%Z.
Proof.
  unfold roundHalfEven.
  destruct (Qcompare (r - inject_Z (Qfloor r)) (1 # 2)); [|lia|lia].
  destruct (Z.even (Qfloor r)); lia.
Qed.

(* q = n/d *)
Lemma Qlog2_bounds (q : Q) : 0 < q -> 2 ^ Qlog2 q <= q /\ q < 2 ^ (Qlog2 q + 1).
Proof.
  intro Hq. destruct q as [n d]. unfold Qlog2. cbn [Qnum Qden].
  assert (Hn : (0 < n)%Z).
  { unfold Qlt in Hq. simpl in Hq. lia. }
  set (a := Z.log2 n). set (b := Z.log2 (Z.pos d)).
  assert (Ha : (2 ^ a <= n < 2 ^ (a + 1))%Z).
  { unfold a. pose proof (Z.log2_spec n Hn) as H.
    rewrite <- Z.add_1_r in H. exact H. }
  assert (Hb : (2 ^ b <= Z.pos d < 2 ^ (b + 1))%Z).
  { unfold b. pose proof (Z.log2_spec (Z.pos d) eq_refl) as H.
    rewrite <- Z.add_1_r in H. exact H. }
  assert (Ha0 : (0 <= a)%Z) by apply Z.log2_nonneg.
  assert (Hb0 : (0 <= b)%Z) by apply Z.log2_nonneg.
  assert (Hnd : n # d == inject_Z n / inject_Z (Z.pos d)) by apply Qmake_Qdiv.
  assert (Hdpos : 0 < inject_Z (Z.pos d)) by reflexivity.
  (* rational forms of the integer bounds *)
  assert (Qa1 : 2 ^ a <= inject_Z n).
  { rewrite <- Qpow2_inject by exact Ha0. rewrite <- Zle_Qle. apply Ha. }
  assert (Qa2 : inject_Z n < 2 ^ (a + 1)).
  { rewrite <- Qpow2_inject by lia. rewrite <- Zlt_Qlt. apply Ha. }
  assert (Qb1 : 2 ^ b <= inject_Z (Z.pos d)).
  { rewrite <- Qpow2_inject by exact Hb0. rewrite <- Zle_Qle. apply Hb. }
  assert (Qb2 : inject_Z (Z.pos d) < 2 ^ (b + 1)).
  { rewrite <- Qpow2_inject by lia. rewrite <- Zlt_Qlt. apply Hb. }
  (* q < 2^(a-b+1) and 2^(a-b-1) < q *)
  assert (Hup : n # d < 2 ^ (a - b + 1)).
  { rewrite Hnd. apply Qlt_shift_div_r; [exact Hdpos|].
    apply Qlt_le_trans with (2 ^ (a + 1)); [exact Qa2|].
    replace (a + 1)%Z with ((a - b + 1) + b)%Z by lia.
    rewrite Qpower_plus by exact two_neq_0.
    apply Qmult_le_l; [apply Qpow2_pos | exact Qb1]. }
  assert (Hlow : 2 ^ (a - b - 1) <= n # d).
  { rewrite Hnd. apply Qle_shift_div_l; [exact Hdpos|].
    apply Qle_trans with (2 ^ a); [|exact Qa1].
    replace a with ((a - b - 1) + (b + 1))%Z at 2 by lia.
    rewrite Qpower_plus by exact two_neq_0.
    apply Qmult_le_l; [apply Qpow2_pos | apply Qlt_le_weak; exact Qb2]. }
  destruct (Qle_bool (2 ^ (a - b)) (n # d)) eqn:E.
  - apply Qle_bool_iff in E. split; [exact E | exact Hup].
  - split; [exact Hlow|].
    replace (a - b - 1 + 1)%Z with (a - b)%Z by lia.
    apply Qnot_le_lt. intro H. apply Qle_bool_iff in H. congruence.
Qed.


Lemma roundHalfEven_near (r : Q) : Qabs (inject_Z (roundHalfEven r) - r) <= 1 # 2.
Proof.
  pose proof (Qfloor_le r) as Hlo. pose proof (Qlt_floor r) as Hhi.
  rewrite inject_Z_plus in Hhi. change (inject_Z 1) with 1 in Hhi.
  apply Qabs_Qle_condition. unfold roundHalfEven.
  destruct (Qcompare (r - inject_Z (Qfloor r)) (1 # 2)) eqn:E.
  - apply Qeq_alt in E. destruct (Z.even (Qfloor r)).
    + split; lra.
    + rewrite inject_Z_plus. change (inject_Z 1) with 1. split; lra.
  - apply Qlt_alt in E. split; lra.
  - apply Qgt_alt in E. rewrite inject_Z_plus. change (inject_Z 1) with 1. split; lra.
Qed.

(** The rounded number is a binary64 nearest to [q]: a significand of at most
    53 bits on the last bit of the binade of [q], within half of that bit. *)
Lemma round64pos_nearest (q v : Q) :
  0 < q ->
  round64pos q = Some v ->
  exists m : Z,
    (0 <= m <= 2 ^ 53)%Z /\
    v == inject_Z m * 2 ^ Z.max (Qlog2 q - 52) (-1074) /\
    Qabs (v - q) <= (1 # 2) * 2 ^ Z.max (Qlog2 q - 52) (-1074).
Proof.
  intros Hq Hv. destruct (Qlog2_bounds q Hq) as [Hlo Hhi].
  unfold round64pos in Hv.
  set (e := Z.max (Qlog2 q - 52) (-1074)) in *.
  set (r := q / 2 ^ e) in *.
  destruct (Qle_bool (2 ^ 1024) (inject_Z (roundHalfEven r) * 2 ^ e)); [discriminate Hv|].
  injection Hv as <-.
  assert (He' : (Qlog2 q + 1 <= e + 53)%Z) by (unfold e; lia).
  assert (Hr : r < 2 ^ 53).
  { unfold r. apply Qlt_shift_div_r; [apply Qpow2_pos|].
    rewrite <- Qpower_plus by exact two_neq_0.
    apply Qlt_le_trans with (2 ^ (Qlog2 q + 1)); [exact Hhi|].
    apply Qpower_le_compat_l; [lia | discriminate]. }
  assert (Hr0 : 0 <= r).
  { unfold r. apply Qle_shift_div_l; [apply Qpow2_pos|]. rewrite Qmult_0_l.
    apply Qlt_le_weak. exact Hq. }
  assert (Hf : (Qfloor r < 2 ^ 53)%Z).
  { rewrite Zlt_Qlt. apply Qle_lt_trans with r; [apply Qfloor_le|].
    rewrite Qpow2_inject by lia. exact Hr. }
  exists (roundHalfEven r). split; [|split].
  - pose proof (roundHalfEven_le r). pose proof (roundHalfEven_ge r).
    assert (0 <= Qfloor r)%Z; [|lia].
    rewrite <- (Qfloor_Z 0). apply Qfloor_resp_le. exact Hr0.
  - exact (Qred_correct _).
  - rewrite (Qred_correct (inject_Z (roundHalfEven r) * 2 ^ e)).
    assert (Eq : q == r * 2 ^ e).
    { unfold r. field. apply Qpower_not_0. exact two_neq_0. }
    setoid_replace (inject_Z (roundHalfEven r) * 2 ^ e - q)
      with ((inject_Z (roundHalfEven r) - r) * 2 ^ e) by (rewrite Eq at 1; ring).
    rewrite Qabs_Qmult. rewrite (Qabs_pos (2 ^ e)) by (apply Qlt_le_weak, Qpow2_pos).
    apply Qmult_le_compat_r; [apply roundHalfEven_near|].
    apply Qlt_le_weak, Qpow2_pos.
Qed.


Lemma round64_not_nan (q : Q) : isNaN (round64 q) = false.
Proof.
  unfold round64. destruct (Qzerob q); [reflexivity|].
  destruct (Qltb q 0).
  - destruct (round64pos (- q)); reflexivity.
  - destruct (round64pos q); reflexivity.
Qed.

Lemma round64_zero (q : Q) : q == 0 -> round64 q = Finite 0.
Proof.
  intro H. unfold round64. apply Qzerob_zero in H. rewrite H. reflexivity.
Qed.

(** The sums and quotients of the model are those of the machine: on ties,
    on subnormal numbers, at the edge of overflow, and on the inputs of the
    examples below. *)
Example hardware_agreement :
  forallb (fun xy => agreesWithHardware (fst xy) (snd xy))
    [(1, 3); (201, 200); (1000, 10); (33, 100); (-7, 3);
     (4503599627370503, 128); (9007199254740992, 1); (9007199254740992, 3);
     (0x1p1023, 0x1p1023); (0x1p1023, 0x1p-1); (0x1.fffffffffffffp1023, 0x1p970);
     (0x1.fffffffffffffp1023, 0x1p969); (0x1.fffffffffffffp1023, 0x1.fffffffffffffp-1);
     (0x1p-1074, 2); (0x3p-1074, 2); (0x1p-1022, 3); (0x1.8p-1, 0x1.4p-3);
     (0x1.999999999999ap-4, 0x1.999999999999ap-3);
     (-0x1p1023, -0x1p1023); (0x1.3333333333333p-2, -0x1.999999999999ap-4)]%float
  = true.
Proof. vm_compute. reflexivity. Qed.

(** ** The ROI calculator *)






(** ** The stable sort *)

Section ArraySort.

Context {A : Type}.
Variable cmp : A -> A -> Z.

Hypothesis cmp_total : forall x y, (0 < cmp x y)%Z -> mayPrecede cmp y x.
Hypothesis cmp_trans : forall x y z, mayPrecede cmp x y -> mayPrecede cmp y z -> mayPrecede cmp x z.

Lemma insertSorted_perm (x : A) (l : list A) :
  Permutation (insertSorted cmp x l) (x :: l).
Proof.
  induction l as [|y l IH]; simpl.
  - apply Permutation_refl.
  - destruct (0 <? cmp x y)%Z.
    + apply perm_trans with (y :: x :: l).
      * apply perm_skip. exact IH.
      * apply perm_swap.
    + apply Permutation_refl.
Qed.

Lemma arraySort_perm (l : list A) : Permutation (arraySort cmp l) l.
Proof.
  induction l as [|x l IH]; simpl.
  - apply perm_nil.
  - apply perm_trans with (x :: arraySort cmp l).
    + apply insertSorted_perm.
    + apply perm_skip. exact IH.
Qed.

Lemma insertSorted_sorted (x : A) (l : list A) :
  StronglySorted (mayPrecede cmp) l -> StronglySorted (mayPrecede cmp) (insertSorted cmp x l).
Proof.
  induction l as [|y l IH]; simpl; intro Hs.
  - constructor; constructor.
  - inversion Hs as [|? ? Hl Hy]; subst.
    destruct (0 <? cmp x y)%Z eqn:E.
    + apply Z.ltb_lt in E. constructor.
      * apply IH. exact Hl.
      * apply (Permutation_Forall (Permutation_sym (insertSorted_perm x l))).
        constructor; [apply cmp_total; exact E | exact Hy].
    + apply Z.ltb_ge in E. constructor; [exact Hs|].
      constructor; [exact E|].
      apply Forall_impl with (P := mayPrecede cmp y); [|exact Hy].
      intros z Hz. apply cmp_trans with y; assumption.
Qed.

Lemma arraySort_sorted (l : list A) : StronglySorted (mayPrecede cmp) (arraySort cmp l).
Proof.
  induction l as [|x l IH]; simpl.
  - constructor.
  - apply insertSorted_sorted. exact IH.
Qed.

(** Elements that the comparator does not separate keep their order. *)
Lemma insertSorted_filter (p : A -> bool) (x : A) (l : list A) :
  (forall a b, p a = true -> p b = true -> mayPrecede cmp a b) ->
  filter p (insertSorted cmp x l) = filter p (x :: l).
Proof.
  intro Hp. induction l as [|y l IH]; [reflexivity|].
  simpl insertSorted. destruct (0 <? cmp x y)%Z eqn:E; [|reflexivity].
  apply Z.ltb_lt in E. simpl in IH |- *. rewrite IH.
  destruct (p x) eqn:Px; destruct (p y) eqn:Py; try reflexivity.
  exfalso. specialize (Hp x y Px Py). unfold mayPrecede in Hp. lia.
Qed.

Lemma arraySort_filter (p : A -> bool) (l : list A) :
  (forall a b, p a = true -> p b = true -> mayPrecede cmp a b) ->
  filter p (arraySort cmp l) = filter p l.
Proof.
  intro Hp. induction l as [|x l IH]; [reflexivity|].
  simpl arraySort. rewrite insertSorted_filter by exact Hp.
  simpl. rewrite IH. reflexivity.
Qed.

End ArraySort.

Lemma StronglySorted_nth_error {A : Type} (R : A -> A -> Prop) (l : list A) :
  StronglySorted R l ->
  forall i j a b, (i < j)%nat ->
    nth_error l i = Some a -> nth_error l j = Some b -> R a b.
Proof.
  induction 1 as [|x l Hl IH Hx]; intros i j a b Hij Ha Hb.
  - destruct i; discriminate Ha.
  - destruct j as [|j]; [lia|]. simpl in Hb.
    destruct i as [|i]; simpl in Ha.
    + injection Ha as <-. rewrite Forall_forall in Hx. apply Hx.
      eapply nth_error_In. exact Hb.
    + apply (IH i j); [lia | assumption | assumption].
Qed.

Lemma PRIORITY_ORDER_inj (p q : Priority) :
  PRIORITY_ORDER p = PRIORITY_ORDER q -> p = q.
Proof. destruct p, q; simpl; intro H; try reflexivity; discriminate H. Qed.

Lemma compareTasks_le (a b : Task) :
  (compareTasks a b <= 0)%Z <->
  (PRIORITY_ORDER (priority b) < PRIORITY_ORDER (priority a))%Z \/
  (priority a = priority b /\ (createdAt b <= createdAt a)%Z).
Proof.
  unfold compareTasks.
  destruct (PRIORITY_ORDER (priority b) - PRIORITY_ORDER (priority a) =? 0)%Z eqn:E.
  - apply Z.eqb_eq in E. split.
    + intro H. right. split; [apply PRIORITY_ORDER_inj; lia | lia].
    + intros [H|[_ H]]; lia.
  - apply Z.eqb_neq in E. split.
    + intro H. left. lia.
    + intros [H|[H _]]; [lia|]. rewrite H in E. lia.
Qed.

Lemma compareTasks_total (x y : Task) :
  (0 < compareTasks x y)%Z -> mayPrecede compareTasks y x.
Proof.
  unfold mayPrecede. intro H. apply compareTasks_le.
  assert (Hn : ~ (compareTasks x y <= 0)%Z) by lia.
  rewrite compareTasks_le in Hn.
  destruct (Z.lt_trichotomy (PRIORITY_ORDER (priority x)) (PRIORITY_ORDER (priority y)))
    as [Hlt|[Heq|Hgt]].
  - left. exact Hlt.
  - right. apply PRIORITY_ORDER_inj in Heq. split; [symmetry; exact Heq|].
    destruct (Z_le_gt_dec (createdAt x) (createdAt y)) as [Hle|Hgt]; [exact Hle|].
    exfalso. apply Hn. right. split; [exact Heq | lia].
  - exfalso. apply Hn. left. exact Hgt.
Qed.

Lemma compareTasks_trans (x y z : Task) :
  mayPrecede compareTasks x y -> mayPrecede compareTasks y z ->
  mayPrecede compareTasks x z.
Proof.
  unfold mayPrecede. rewrite !compareTasks_le.
  intros [H1|[H1 H1']] [H2|[H2 H2']].
  - left. lia.
  - left. rewrite <- H2. exact H1.
  - left. rewrite H1. exact H2.
  - right. split; [congruence | lia].
Qed.

Lemma sortTasks_sorted (l : list Task) :
  StronglySorted (mayPrecede compareTasks) (sortTasks l).
Proof.
  apply arraySort_sorted.
  - exact compareTasks_total.
  - exact compareTasks_trans.
Qed.

Lemma outranks_PRIORITY_ORDER (p q : Priority) :
  outranks p q = true <-> (PRIORITY_ORDER q < PRIORITY_ORDER p)%Z.
Proof. destruct p, q; simpl; split; intro H; try reflexivity; try discriminate H; lia. Qed.

(** C2.  The sorter returns the tasks of its argument, ordered by priority
    descending: every High task stands before every Medium and every Low
    task, and every Medium task before every Low task, whatever the creation
    times; among tasks of equal priority the order is by [createdAt]
    descending. *)
Theorem sortTasks_ordered :
  forall l : list Task,
    Permutation (sortTasks l) l /\
    (forall (i j : nat) (a b : Task),
        (i < j)%nat ->
        nth_error (sortTasks l) i = Some a ->
        nth_error (sortTasks l) j = Some b ->
        (PRIORITY_ORDER (priority b) <= PRIORITY_ORDER (priority a))%Z /\
        outranks (priority b) (priority a) = false /\
        (priority a = priority b -> (createdAt b <= createdAt a)%Z)) /\
    (forall (i j : nat) (a b : Task),
        nth_error (sortTasks l) i = Some a ->
        nth_error (sortTasks l) j = Some b ->
        ((PRIORITY_ORDER (priority b) < PRIORITY_ORDER (priority a))%Z -> (i < j)%nat) /\
        (outranks (priority a) (priority b) = true -> (i < j)%nat) /\
        (priority a = HIGH -> priority b = MEDIUM -> (i < j)%nat) /\
        (priority a = HIGH -> priority b = LOW -> (i < j)%nat) /\
        (priority a = MEDIUM -> priority b = LOW -> (i < j)%nat)).
Proof.
  intro l.
  assert (Hord : forall (i j : nat) (a b : Task),
             (i < j)%nat ->
             nth_error (sortTasks l) i = Some a ->
             nth_error (sortTasks l) j = Some b ->
             (PRIORITY_ORDER (priority b) <= PRIORITY_ORDER (priority a))%Z /\
             (priority a = priority b -> (createdAt b <= createdAt a)%Z)).
  { intros i j a b Hij Ha Hb.
    assert (H : mayPrecede compareTasks a b).
    { apply (StronglySorted_nth_error _ (sortTasks l) (sortTasks_sorted l) i j);
        assumption. }
    apply compareTasks_le in H. destruct H as [H|[H H']].
    - split; [lia|]. intro E. rewrite E in H. lia.
    - split; [rewrite H; lia|]. intros _. exact H'. }
  assert (Hlt : forall (i j : nat) (a b : Task),
             nth_error (sortTasks l) i = Some a ->
             nth_error (sortTasks l) j = Some b ->
             (PRIORITY_ORDER (priority b) < PRIORITY_ORDER (priority a))%Z ->
             (i < j)%nat).
  { intros i j a b Ha Hb Hlt.
    destruct (Nat.lt_trichotomy i j) as [Hij|[Hij|Hij]]; [exact Hij| |].
    - subst j. rewrite Ha in Hb. injection Hb as <-. lia.
    - destruct (Hord j i b a Hij Hb Ha) as [H _]. lia. }
  split; [apply arraySort_perm|]. split.
  - intros i j a b Hij Ha Hb. destruct (Hord i j a b Hij Ha Hb) as [H1 H2].
    split; [exact H1|]. split; [|exact H2].
    destruct (outranks (priority b) (priority a)) eqn:E; [|reflexivity].
    apply outranks_PRIORITY_ORDER in E. lia.
  - intros i j a b Ha Hb.
    assert (Hout : outranks (priority a) (priority b) = true -> (i < j)%nat).
    { intro H. apply (Hlt i j a b Ha Hb). apply outranks_PRIORITY_ORDER. exact H. }
    split; [apply (Hlt i j a b Ha Hb)|]. split; [exact Hout|].
    split; [|split]; intros E1 E2; apply Hout; rewrite E1, E2; reflexivity.
Qed.

Lemma Priority_eqb_eq (p q : Priority) : Priority_eqb p q = true <-> p = q.
Proof. destruct p, q; simpl; split; intro H; try reflexivity; discriminate H. Qed.

Lemma sameKey_spec (k t : Task) :
  sameKey k t = true <-> priority t = priority k /\ createdAt t = createdAt k.
Proof.
  unfold sameKey. rewrite andb_true_iff, Priority_eqb_eq, Z.eqb_eq. reflexivity.
Qed.

Lemma sameKey_mayPrecede (k a b : Task) :
  sameKey k a = true -> sameKey k b = true -> mayPrecede compareTasks a b.
Proof.
  rewrite !sameKey_spec. intros [Ha Ha'] [Hb Hb'].
  apply compareTasks_le. right. split; [congruence | lia].
Qed.

Lemma writeArray_last (h : store) (x y : list Task) :
  writeArray (List.length h) x (h ++ [y]) = h ++ [x].
Proof.
  induction h as [|b h IH]; simpl; [reflexivity|]. rewrite IH. reflexivity.
Qed.

Lemma readArray_app_other (h : store) (x : list Task) (q : ref) :
  q <> List.length h -> readArray q (h ++ [x]) = readArray q h.
Proof.
  unfold readArray. intro Hq.
  destruct (Nat.lt_ge_cases q (List.length h)) as [Hlt|Hge].
  - apply nth_error_app1. exact Hlt.
  - assert (Hn : nth_error h q = None) by (apply nth_error_None; exact Hge).
    rewrite Hn. apply nth_error_None. rewrite length_app. simpl. lia.
Qed.

Lemma readArray_app_last (h : store) (x : list Task) :
  readArray (List.length h) (h ++ [x]) = Some x.
Proof.
  unfold readArray. rewrite nth_error_app2 by lia.
  rewrite Nat.sub_diag. reflexivity.
Qed.

Lemma readArray_middle (h1 h2 : store) (a : list Task) :
  readArray (List.length h1) (h1 ++ a :: h2) = Some a.
Proof.
  unfold readArray. rewrite nth_error_app2 by lia.
  rewrite Nat.sub_diag. reflexivity.
Qed.

(** C3.  The sorter is stable: the tasks of any one priority and creation time
    stand in the output in the order they have in the input.  It does not
    mutate its argument: sorting the array at a reference allocates a new
    array for the result and leaves every array of the store as it was. *)
Theorem sortTasks_stable :
  (forall (l : list Task) (k : Task),
      filter (sameKey k) (sortTasks l) = filter (sameKey k) l) /\
  (forall (h1 h2 : store) (a : list Task),
      let h := h1 ++ a :: h2 in
      let r := List.length h1 in
      exists (r' : ref) (h' : store),
        sortTasksRef r h = Some (r', h') /\
        r' <> r /\
        readArray r h' = Some a /\
        readArray r' h' = Some (sortTasks a) /\
        forall q : ref, q <> r' -> readArray q h' = readArray q h).
Proof.
  split.
  - intros l k. apply arraySort_filter. intros a b. apply sameKey_mayPrecede.
  - intros h1 h2 a h r.
    assert (Hr : readArray r h = Some a) by apply readArray_middle.
    assert (Hlen : (r < List.length h)%nat).
    { subst h r. rewrite length_app. simpl. lia. }
    exists (List.length h), (h ++ [sortTasks a]).
    split; [|split; [|split; [|split]]].
    + unfold sortTasksRef. rewrite Hr. unfold allocArray.
      rewrite readArray_app_last, writeArray_last. reflexivity.
    + lia.
    + rewrite readArray_app_other by lia. exact Hr.
    + apply readArray_app_last.
    + intros q Hq. apply readArray_app_other. exact Hq.
Qed.

(** ** Delete and undo *)

Lemma filter_other_ids (task : Task) (l : list Task) :
  ~ In (id task) (map id l) ->
  filter (fun t => negb (id t =? id task)%string) l = l.
Proof.
  induction l as [|t l IH]; simpl; intro Hn; [reflexivity|].
  destruct (String.eqb_spec (id t) (id task)) as [E|E]; simpl.
  - exfalso. apply Hn. left. exact E.
  - rewrite IH; [reflexivity|]. intro H. apply Hn. right. exact H.
Qed.

Lemma filter_removes_one (task : Task) (l1 l2 : list Task) :
  NoDup (map id (l1 ++ task :: l2)) ->
  filter (fun t => negb (id t =? id task)%string) (l1 ++ task :: l2) = l1 ++ l2.
Proof.
  intro Hnd. rewrite map_app in Hnd. simpl in Hnd.
  apply NoDup_remove_2 in Hnd.
  rewrite filter_app. simpl. rewrite String.eqb_refl. simpl.
  rewrite !filter_other_ids; [reflexivity | |];
    intro H; apply Hnd; apply in_or_app; [right | left]; exact H.
Qed.

Lemma tasks_handleDelete (task : Task) (s : AppState) :
  tasks (handleDelete task s) =
  filter (fun t => negb (id t =? id task)%string) (tasks s).
Proof. reflexivity. Qed.

Lemma lastDeletedTask_handleDelete (task : Task) (s : AppState) :
  lastDeletedTask (handleDelete task s) = Some task.
Proof. reflexivity. Qed.

Lemma handleUndo_some (s : AppState) (t : Task) :
  lastDeletedTask s = Some t -> tasks (handleUndo s) = tasks s ++ [t].
Proof. unfold handleUndo. intros ->. reflexivity. Qed.

Lemma handleUndo_none (s : AppState) :
  lastDeletedTask s = None -> handleUndo s = s.
Proof. unfold handleUndo. intros ->. reflexivity. Qed.

(** C4.  When the ids of the list are unique, deleting a task of the list
    removes that one record and keeps the others as they are and in their
    order; the undo that follows puts the very same record, so all its fields,
    back into the list. *)
Theorem handleDelete_then_undo :
  forall (s : AppState) (task : Task),
    NoDup (map id (tasks s)) ->
    In task (tasks s) ->
    exists l1 l2 : list Task,
      tasks s = l1 ++ task :: l2 /\
      tasks (handleDelete task s) = l1 ++ l2 /\
      S (List.length (tasks (handleDelete task s))) = List.length (tasks s) /\
      ~ In (id task) (map id (tasks (handleDelete task s))) /\
      tasks (handleUndo (handleDelete task s)) = l1 ++ l2 ++ [task] /\
      Permutation (tasks (handleUndo (handleDelete task s))) (tasks s).
Proof.
  intros s task Hnd Hin.
  destruct (in_split _ _ Hin) as (l1 & l2 & Hs).
  exists l1, l2.
  assert (Hdel : tasks (handleDelete task s) = l1 ++ l2).
  { rewrite tasks_handleDelete, Hs. apply filter_removes_one.
    rewrite <- Hs. exact Hnd. }
  assert (Hundo : tasks (handleUndo (handleDelete task s)) = l1 ++ l2 ++ [task]).
  { rewrite (handleUndo_some _ task) by apply lastDeletedTask_handleDelete.
    rewrite Hdel, <- app_assoc. reflexivity. }
  split; [exact Hs|]. split; [exact Hdel|]. split; [|split; [|split]].
  - rewrite Hdel, Hs, !length_app. simpl. lia.
  - rewrite Hdel. rewrite Hs, map_app in Hnd. simpl in Hnd.
    apply NoDup_remove_2 in Hnd. rewrite map_app. exact Hnd.
  - exact Hundo.
  - rewrite Hundo, Hs. apply Permutation_app_head.
    apply Permutation_sym. apply Permutation_cons_append.
Qed.

(** C10.  Undo appends the task of the undo buffer to the end of the list:
    after a delete, the list after undo is the list after the delete followed
    by the deleted task.  With an empty buffer undo changes nothing. *)
Theorem handleUndo_appends :
  (forall (s : AppState) (task : Task),
      tasks (handleUndo (handleDelete task s)) =
      tasks (handleDelete task s) ++ [task]) /\
  (forall (s : AppState) (t : Task),
      lastDeletedTask s = Some t -> tasks (handleUndo s) = tasks s ++ [t]) /\
  (forall s : AppState, lastDeletedTask s = None -> handleUndo s = s).
Proof.
  split; [|split].
  - intros s task. apply handleUndo_some. apply lastDeletedTask_handleDelete.
  - exact handleUndo_some.
  - exact handleUndo_none.
Qed.

(** ** Saving a task *)

(** C6.  A save stores [roi] as the ROI calculator's result on the revenue and
    the time being saved: a new task is appended with them, and an edit
    rewrites the tasks with the edited id with them and keeps the others.  So
    a list in which every [roi] is derived stays so. *)
Theorem handleSaveTask_roi_derived :
  forall (form : FormData) (uuid : string) (now : Z) (s : AppState),
    (editingTask s = None ->
     exists t : Task,
       tasks (handleSaveTask form uuid now s) = tasks s ++ [t] /\
       revenue t = formRevenue form /\
       timeTaken t = formTimeTaken form /\
       roi t = calculateRoi (formRevenue form) (formTimeTaken form)) /\
    (forall editing : Task,
        editingTask s = Some editing ->
        Forall2
          (fun old new : Task =>
             if (id old =? id editing)%string
             then id new = id old /\
                  revenue new = formRevenue form /\
                  timeTaken new = formTimeTaken form /\
                  roi new = calculateRoi (formRevenue form) (formTimeTaken form)
             else new = old)
          (tasks s) (tasks (handleSaveTask form uuid now s))) /\
    (Forall (fun t => roi t = calculateRoi (revenue t) (timeTaken t)) (tasks s) ->
     Forall (fun t => roi t = calculateRoi (revenue t) (timeTaken t))
       (tasks (handleSaveTask form uuid now s))).
Proof.
  intros form uuid now s. split; [|split].
  - intro He. unfold handleSaveTask. rewrite He. simpl.
    eexists. split; [reflexivity|]. simpl. auto.
  - intros editing He. unfold handleSaveTask. rewrite He. simpl.
    induction (tasks s) as [|t l IH]; simpl; constructor; [|exact IH].
    destruct (id t =? id editing)%string; simpl; auto.
  - intro Hall. unfold handleSaveTask.
    destruct (editingTask s) as [editing|]; simpl.
    + induction Hall as [|t l Ht Hl IH]; simpl; constructor; [|exact IH].
      destruct (id t =? id editing)%string; [reflexivity | exact Ht].
    + apply Forall_app. split; [exact Hall|]. constructor; [reflexivity|constructor].
Qed.

(** ** The initial load *)

(** C7.  When the initial load fails, [init] completes normally: the failure
    is written to the console, the task list stays the empty list of the
    initial state, and the loading flag is cleared when the component is
    still mounted.  On any state the task list is left as it was. *)
Theorem init_load_failure :
  forall (error : string) (mounted : bool),
    (exists s' : AppState,
        init (Rejected error) mounted initialState = (Normal tt, s') /\
        tasks s' = [] /\
        console s' = [("Failed to load tasks"%string, error)] /\
        isLoading s' = negb mounted) /\
    (forall s : AppState,
        exists s' : AppState,
          init (Rejected error) mounted s = (Normal tt, s') /\
          tasks s' = tasks s /\
          console s' = console s ++ [("Failed to load tasks"%string, error)]).
Proof.
  intros error mounted. split.
  - destruct mounted; eexists; (split; [reflexivity|]); simpl; auto.
  - intro s. destruct mounted; eexists; (split; [reflexivity|]); simpl; auto.
Qed.

(** ** The summary *)

Lemma truthy_js_length {A : Type} (l : list A) :
  truthy (js_length l) = match l with [] => false | _ :: _ => true end.
Proof. destruct l; reflexivity. Qed.



(** C5.  Over the empty list [avgRoi] is [0] and not [NaN]: the quotient by
    [tasks.length], which would be [NaN] there, is computed for a list with
    at least one task only. *)
Theorem summary_avgRoi_empty :
  forall (bands : list (Q * string)) (lowest : string),
    num_eq (avgRoi (summary bands lowest [])) (Finite 0) /\
    isNaN (avgRoi (summary bands lowest [])) = false /\
    rawAvgRoi [] = Finite 0 /\
    isNaN (js_div (sumOf roi []) (js_length (@nil Task))) = true /\
    (forall l : list Task,
        rawAvgRoi l =
        match l with
        | [] => Finite 0
        | _ :: _ => js_div (sumOf roi l) (js_length l)
        end).
Proof.
  intros bands lowest. repeat split.
  intro l. unfold rawAvgRoi. rewrite truthy_js_length. destruct l; reflexivity.
Qed.




(** The rounding of the quotient and of the printed decimal shows in the
    result: [201 / 200] is a number below [1.005] and prints as [1.00]; the
    quotient [(2 ^ 52 + 7) / 128] prints as [...832.05], which reads back as
    [...832.046875]. *)
Example summary_efficiency_examples :
  efficiency (summary sampleBands sampleLowest [sampleTask "1" 201 200 LOW 0]) = Finite 1 /\
  num_eq
    (efficiency (summary sampleBands sampleLowest
                   [sampleTask "1" (inject_Z (2 ^ 52 + 7)) 128 LOW 0]))
    (Finite (35184372088832 + (3 # 64))).
Proof. vm_compute. repeat split. Qed.

(** ** The performance grade *)

Lemma js_le_trans (x y z : number) :
  js_le x y = true -> js_le y z = true -> js_le x z = true.
Proof.
  destruct x as [a| | |], y as [b| | |], z as [c| | |]; simpl;
    try reflexivity; try discriminate.
  rewrite !Qle_bool_iff. apply Qle_trans.
Qed.

Lemma getPerformanceGrade_label (bands : list (Q * string)) (lowest : string) (x : number) :
  In (getPerformanceGrade bands lowest x) (gradeLabels bands lowest).
Proof.
  unfold gradeLabels. induction bands as [|[t g] rest IH]; [left; reflexivity|].
  cbn [getPerformanceGrade map snd app].
  destruct (js_ge x (Finite t)); [left; reflexivity | right; exact IH].
Qed.

Lemma gradeRank_returned (bands : list (Q * string)) (lowest : string) (x : number) :
  NoDup (gradeLabels bands lowest) ->
  gradeRank (gradeLabels bands lowest) (getPerformanceGrade bands lowest x) =
  gradeBand bands x.
Proof.
  unfold gradeLabels. induction bands as [|[t g] rest IH]; intro Hnd.
  - cbn. rewrite String.eqb_refl. reflexivity.
  - cbn [getPerformanceGrade gradeBand map snd app gradeRank].
    inversion Hnd as [|? ? Hg Hrest]; subst.
    destruct (js_ge x (Finite t)).
    + rewrite String.eqb_refl. reflexivity.
    + destruct (String.eqb_spec (getPerformanceGrade rest lowest x) g) as [E|E].
      * exfalso. apply Hg. rewrite <- E. apply getPerformanceGrade_label.
      * rewrite (IH Hrest). reflexivity.
Qed.

Lemma gradeBand_monotone (bands : list (Q * string)) (x y : number) :
  js_le x y = true -> (gradeBand bands y <= gradeBand bands x)%nat.
Proof.
  intro Hxy. induction bands as [|[t g] rest IH]; [apply Nat.le_refl|].
  cbn [gradeBand].
  destruct (js_ge x (Finite t)) eqn:Ex.
  - unfold js_ge in *. rewrite (js_le_trans _ _ _ Ex Hxy). lia.
  - destruct (js_ge y (Finite t)); lia.
Qed.

(** C9.  The grade function returns one of the grades for every average ROI,
    and it is monotonic: with the grades distinct and ranked from the top one
    down, for [x <= y] the grade returned for [y] has the rank of the grade
    returned for [x] or a better one. *)
Theorem getPerformanceGrade_monotone :
  forall (bands : list (Q * string)) (lowest : string) (x y : number),
    NoDup (gradeLabels bands lowest) ->
    js_le x y = true ->
    (gradeRank (gradeLabels bands lowest) (getPerformanceGrade bands lowest y) <=
     gradeRank (gradeLabels bands lowest) (getPerformanceGrade bands lowest x))%nat /\
    In (getPerformanceGrade bands lowest x) (gradeLabels bands lowest) /\
    In (getPerformanceGrade bands lowest y) (gradeLabels bands lowest).
Proof.
  intros bands lowest x y Hnd Hxy.
  split; [|split; apply getPerformanceGrade_label].
  rewrite !gradeRank_returned by exact Hnd.
  apply gradeBand_monotone. exact Hxy.
Qed.

Lemma getPerformanceGrade_monotone_witness :
  NoDup (gradeLabels sampleBands sampleLowest) /\
  js_le (Finite 100) (Finite 300) = true /\
  getPerformanceGrade sampleBands sampleLowest (Finite 100) = "Needs Improvement"%string /\
  getPerformanceGrade sampleBands sampleLowest (Finite 300) = "Good"%string /\
  (gradeRank (gradeLabels sampleBands sampleLowest)
     (getPerformanceGrade sampleBands sampleLowest (Finite 300)) <=
   gradeRank (gradeLabels sampleBands sampleLowest)
     (getPerformanceGrade sampleBands sampleLowest (Finite 100)))%nat.
Proof.
  assert (Hnd : NoDup (gradeLabels sampleBands sampleLowest)).
  { cbn. constructor.
    - intros [H|[H|[]]]; discriminate H.
    - constructor; [intros [H|[]]; discriminate H|].
      constructor; [intros [] | constructor]. }
  assert (Hle : js_le (Finite 100) (Finite 300) = true) by reflexivity.
  split; [exact Hnd|]. split; [exact Hle|].
  split; [reflexivity|]. split; [reflexivity|].
  exact (proj1 (getPerformanceGrade_monotone sampleBands sampleLowest
                  (Finite 100) (Finite 300) Hnd Hle)).
Defined.

Lemma handleDelete_then_undo_witness :
  NoDup (map id (tasks sampleState)) /\
  In (sampleTask "1" 5000 10 HIGH 200) (tasks sampleState) /\
  exists l1 l2 : list Task,
    tasks sampleState = l1 ++ sampleTask "1" 5000 10 HIGH 200 :: l2 /\
    tasks (handleDelete (sampleTask "1" 5000 10 HIGH 200) sampleState) = l1 ++ l2 /\
    S (List.length (tasks (handleDelete (sampleTask "1" 5000 10 HIGH 200) sampleState))) =
      List.length (tasks sampleState) /\
    ~ In (id (sampleTask "1" 5000 10 HIGH 200))
        (map id (tasks (handleDelete (sampleTask "1" 5000 10 HIGH 200) sampleState))) /\
    tasks (handleUndo (handleDelete (sampleTask "1" 5000 10 HIGH 200) sampleState)) =
      l1 ++ l2 ++ [sampleTask "1" 5000 10 HIGH 200] /\
    Permutation
      (tasks (handleUndo (handleDelete (sampleTask "1" 5000 10 HIGH 200) sampleState)))
      (tasks sampleState).
Proof.
  assert (Hnd : NoDup (map id (tasks sampleState))).
  { simpl. constructor.
    - simpl. intros [H|[]]. discriminate H.
    - constructor; [intros [] | constructor]. }
  assert (Hin : In (sampleTask "1" 5000 10 HIGH 200) (tasks sampleState)).
  { simpl. left. reflexivity. }
  split; [exact Hnd|]. split; [exact Hin|].
  exact (handleDelete_then_undo sampleState (sampleTask "1" 5000 10 HIGH 200) Hnd Hin).
Defined.

(** ** Search and filter *)

Lemma prefix_app (a b : string) :
  prefix a b = true <-> exists post : string, b = (a ++ post)%string.
Proof.
  revert b. induction a as [|c a IH]; intro b.
  - split; [intros _; exists b; reflexivity | intros _; destruct b; reflexivity].
  - destruct b as [|d b]; simpl.
    + split; [discriminate | intros [post H]; discriminate H].
    + destruct (Ascii.ascii_dec c d) as [->|Hcd].
      * rewrite IH. split; intros [post H]; exists post.
        -- rewrite H. reflexivity.
        -- injection H as H. exact H.
      * split; [discriminate|]. intros [post H]. injection H as H1 H2.
        exfalso. apply Hcd. symmetry. exact H1.
Qed.

Lemma includes_substring (s sub : string) :
  includes s sub = true <->
  exists pre post : string, s = (pre ++ sub ++ post)%string.
Proof.
  induction s as [|c s IH].
  - cbn [includes]. rewrite orb_false_r, prefix_app. split.
    + intros [post H]. exists EmptyString, post. exact H.
    + intros [pre [post H]]. destruct pre as [|d pre]; [|discriminate H].
      exists post. exact H.
  - cbn [includes]. rewrite orb_true_iff, prefix_app, IH. split.
    + intros [[post H]|[pre [post H]]].
      * exists EmptyString, post. exact H.
      * exists (String c pre), post. rewrite H. reflexivity.
    + intros [pre [post H]]. destruct pre as [|d pre].
      * left. exists post. exact H.
      * right. injection H as _ H. exists pre, post. exact H.
Qed.

Lemma includes_empty (s : string) : includes s EmptyString = true.
Proof. destruct s; reflexivity. Qed.

Lemma PriorityValue_eqb (p q : Priority) :
  (PriorityValue p =? PriorityValue q)%string = Priority_eqb p q.
Proof. destruct p, q; reflexivity. Qed.

Lemma PriorityValue_not_all (p : Priority) : (PriorityValue p =? "All")%string = false.
Proof. destruct p; reflexivity. Qed.

(** X1.  With the filter on All Priorities, a task is visible exactly when it is in
    the list and its title in lower case contains the search text in lower
    case as a contiguous part; the visible tasks keep the order of the list. *)
Theorem visibleTasks_search :
  forall (toLowerCase : string -> string) (search : string) (l : list Task),
    (forall t : Task,
        In t (visibleTasks toLowerCase search "All" l) <->
        In t l /\
        exists pre post : string,
          toLowerCase (title t) = (pre ++ toLowerCase search ++ post)%string) /\
    visibleTasks toLowerCase search "All" l =
      filter (fun t => includes (toLowerCase (title t)) (toLowerCase search)) l.
Proof.
  intros toLowerCase search l.
  assert (E : visibleTasks toLowerCase search "All" l =
              filter (fun t => includes (toLowerCase (title t)) (toLowerCase search)) l).
  { unfold visibleTasks. apply filter_ext. intro t. unfold matchesFilters.
    rewrite String.eqb_refl, orb_true_l, andb_true_r. reflexivity. }
  split; [|exact E].
  intro t. rewrite E, filter_In, includes_substring. reflexivity.
Qed.

Lemma matchesFilters_priority (toLowerCase : string -> string) (search : string)
    (p : Priority) (t : Task) :
  matchesFilters toLowerCase search (PriorityValue p) t =
  matchesFilters toLowerCase search "All" t && Priority_eqb (priority t) p.
Proof.
  unfold matchesFilters.
  rewrite PriorityValue_not_all, PriorityValue_eqb, String.eqb_refl.
  rewrite orb_false_l, orb_true_l, andb_true_r. reflexivity.
Qed.

(** X2.  With a priority chosen in the filter, the visible tasks are the tasks of
    that priority that pass the search: the comparison of the strings is the
    comparison of the priorities, and no priority reads as All. *)
Theorem visibleTasks_by_priority :
  forall (toLowerCase : string -> string) (search : string) (p : Priority)
         (l : list Task),
    visibleTasks toLowerCase search (PriorityValue p) l =
      filter (fun t => Priority_eqb (priority t) p)
        (visibleTasks toLowerCase search "All" l) /\
    Forall (fun t => priority t = p)
      (visibleTasks toLowerCase search (PriorityValue p) l).
Proof.
  intros toLowerCase search p l.
  assert (E : visibleTasks toLowerCase search (PriorityValue p) l =
              filter (fun t => Priority_eqb (priority t) p)
                (visibleTasks toLowerCase search "All" l)).
  { unfold visibleTasks. induction l as [|t l IH]; [reflexivity|].
    cbn [filter]. rewrite (matchesFilters_priority toLowerCase search p t).
    destruct (matchesFilters toLowerCase search "All" t); cbn [andb filter].
    - destruct (Priority_eqb (priority t) p); rewrite IH; reflexivity.
    - exact IH. }
  split; [exact E|].
  rewrite E. apply Forall_forall. intros t Ht. apply filter_In in Ht.
  apply Priority_eqb_eq. apply Ht.
Qed.

(** X3.  With an empty search and the filter on All Priorities every task is
    visible, so the list shown is the sorted task list.  A filter text that is
    neither All nor a priority shows nothing. *)
Theorem visibleTasks_all_or_nothing :
  forall (toLowerCase : string -> string) (l : list Task),
    toLowerCase EmptyString = EmptyString ->
    visibleTasks toLowerCase EmptyString "All" l = l /\
    filteredAndSortedTasks toLowerCase EmptyString "All" l = sortTasks l /\
    (forall search filterPriority : string,
        (filterPriority =? "All")%string = false ->
        (forall p : Priority, (PriorityValue p =? filterPriority)%string = false) ->
        visibleTasks toLowerCase search filterPriority l = [] /\
        filteredAndSortedTasks toLowerCase search filterPriority l = []).
Proof.
  intros toLowerCase l Hempty.
  assert (E : visibleTasks toLowerCase EmptyString "All" l = l).
  { unfold visibleTasks. induction l as [|t l IH]; [reflexivity|].
    cbn [filter]. unfold matchesFilters at 1.
    rewrite Hempty, includes_empty, String.eqb_refl. cbn [andb orb].
    rewrite IH. reflexivity. }
  split; [exact E|]. split; [unfold filteredAndSortedTasks; rewrite E; reflexivity|].
  intros search filterPriority Hall Hp.
  assert (E' : visibleTasks toLowerCase search filterPriority l = []).
  { clear E. unfold visibleTasks. induction l as [|t l IH]; [reflexivity|].
    cbn [filter]. unfold matchesFilters at 1.
    rewrite Hall, Hp, andb_false_r. exact IH. }
  split; [exact E'|]. unfold filteredAndSortedTasks. rewrite E'. reflexivity.
Qed.

Lemma visibleTasks_all_or_nothing_witness :
  asciiToLowerCase EmptyString = EmptyString /\
  visibleTasks asciiToLowerCase EmptyString "All" (tasks sampleState) = tasks sampleState.
Proof.
  split; [reflexivity|].
  apply (visibleTasks_all_or_nothing asciiToLowerCase (tasks sampleState)).
  reflexivity.
Defined.

(** ** Events and invariants *)


Lemma deleted_id_absent (task : Task) (l : list Task) :
  ~ In (id task) (map id (filter (fun t => negb (id t =? id task)%string) l)).
Proof.
  intro H. apply in_map_iff in H. destruct H as (t & Hid & Hin).
  apply filter_In in Hin. destruct Hin as [_ Hneq].
  rewrite Hid, String.eqb_refl in Hneq. discriminate Hneq.
Qed.


Lemma map_id_edit (editing : Task) (form : FormData) (r : number) (l : list Task) :
  map id (map (fun t => if (id t =? id editing)%string
                        then mergeTaskData t form r else t) l) = map id l.
Proof.
  induction l as [|t l IH]; simpl; [reflexivity|].
  rewrite IH. destruct (id t =? id editing)%string; reflexivity.
Qed.


Lemma step_allRoiDerived (e : Event) (s : AppState) :
  allRoiDerived s -> enabled e s -> allRoiDerived (step e s).
Proof.
  intros [Hall Hbuf] Hen. destruct e as [task| | | |form uuid now| |t|]; simpl in Hen.
  - split; simpl.
    + apply Forall_forall. intros t Ht. apply filter_In in Ht.
      rewrite Forall_forall in Hall. apply Hall. apply Ht.
    + intros t Ht. injection Ht as <-.
      rewrite Forall_forall in Hall. apply Hall. exact Hen.
  - simpl. unfold handleUndo. destruct (lastDeletedTask s) as [t|] eqn:Et.
    + split; simpl.
      * apply Forall_app. split; [exact Hall|].
        constructor; [apply Hbuf; reflexivity | constructor].
      * intros t' Ht'. apply Hbuf. rewrite <- Et. exact Ht'.
    + split; [exact Hall|]. intros t Ht. rewrite Et in Ht. discriminate Ht.
  - split; assumption.
  - simpl. unfold clearTimerFires. destruct (clearTimers s).
    + split; assumption.
    + split; simpl; [exact Hall | intros t Ht; discriminate Ht].
  - simpl. unfold handleSaveTask. destruct (editingTask s) as [editing|].
    + split; simpl; [|exact Hbuf].
      induction Hall as [|t l Ht Hl IH]; simpl; constructor; [|exact IH].
      destruct (id t =? id editing)%string; [reflexivity | exact Ht].
    + split; simpl; [|exact Hbuf].
      apply Forall_app. split; [exact Hall|].
      constructor; [reflexivity | constructor].
  - split; assumption.
  - split; assumption.
  - split; assumption.
Qed.

Lemma step_isLoading (e : Event) (s : AppState) : isLoading (step e s) = isLoading s.
Proof.
  destruct e; simpl; try reflexivity.
  - unfold handleUndo. destruct (lastDeletedTask s); reflexivity.
  - unfold clearTimerFires. destruct (clearTimers s); reflexivity.
  - unfold handleSaveTask. destruct (editingTask s); reflexivity.
Qed.


(** X5.  When every task of the list has its [roi] derived from its revenue and
    time, this stays so through every sequence of enabled events, for the
    list and for the task held in the undo buffer. *)
Theorem run_keeps_roi_derived :
  forall (es : list Event) (s : AppState),
    allRoiDerived s ->
    enabledRun es s ->
    allRoiDerived (run es s).
Proof.
  induction es as [|e es IH]; intros s Hinv Hen; [exact Hinv|].
  destruct Hen as [He Hes]. simpl. apply IH; [|exact Hes].
  apply step_allRoiDerived; assumption.
Qed.

(** X6.  No event sets the loading flag again: once the tasks are loaded, the
    persistence effect hands the current list to [saveTasksToStorage] after
    every sequence of events. *)
Theorem run_persists_tasks :
  forall (es : list Event) (s : AppState),
    isLoading s = false ->
    isLoading (run es s) = false /\
    persistenceEffect (run es s) = Some (tasks (run es s)).
Proof.
  intros es s Hs.
  assert (H : isLoading (run es s) = false).
  { revert s Hs. induction es as [|e es IH]; intros s Hs; [exact Hs|].
    simpl. apply IH. rewrite step_isLoading. exact Hs. }
  split; [exact H|]. unfold persistenceEffect. rewrite H. reflexivity.
Qed.


Lemma sampleRun_enabled : enabledRun sampleRun sampleState.
Proof.
  simpl. split; [left; reflexivity|]. split; [reflexivity|]. split; [exact I|].
  split; [|exact I]. split; [reflexivity|]. intros _. split.
  - simpl. intros [H|[H|[]]]; discriminate H.
  - simpl. intros t Ht. injection Ht as <-. simpl. discriminate.
Defined.


Lemma run_keeps_roi_derived_witness :
  allRoiDerived sampleState /\
  enabledRun sampleRun sampleState /\
  allRoiDerived (run sampleRun sampleState).
Proof.
  assert (H : allRoiDerived sampleState).
  { split.
    - simpl. constructor; [reflexivity|]. constructor; [reflexivity|constructor].
    - simpl. intros t Ht. discriminate Ht. }
  split; [exact H|]. split; [exact sampleRun_enabled|].
  exact (run_keeps_roi_derived sampleRun sampleState H sampleRun_enabled).
Defined.

Lemma run_persists_tasks_witness :
  isLoading sampleState = false /\
  persistenceEffect (run sampleRun sampleState) = Some (tasks (run sampleRun sampleState)).
Proof.
  split; [reflexivity|].
  apply (run_persists_tasks sampleRun sampleState). reflexivity.
Defined.

(** ** The undo buffer *)

Lemma filter_keeps (task t : Task) (l : list Task) :
  In t l -> id t <> id task ->
  In t (filter (fun x => negb (id x =? id task)%string) l).
Proof.
  intros Hin Hneq. apply filter_In. split; [exact Hin|].
  apply negb_true_iff. apply String.eqb_neq. exact Hneq.
Qed.

(** X7.  The undo buffer holds the last deleted task only: after two deletes, undo
    brings back the second task, the first one stays out of the list, and the
    snackbar with its undo button is gone. *)
Theorem undo_restores_last_delete_only :
  forall (s : AppState) (a b : Task),
    tasks (run [Delete a; Delete b; Undo] s) =
      filter (fun t => negb (id t =? id b)%string)
        (filter (fun t => negb (id t =? id a)%string) (tasks s)) ++ [b] /\
    showSnackbar (run [Delete a; Delete b; Undo] s) = false /\
    (id a <> id b ->
     ~ In (id a) (map id (tasks (run [Delete a; Delete b; Undo] s)))).
Proof.
  intros s a b. split; [reflexivity|]. split; [reflexivity|].
  intros Hab Hin. simpl in Hin. rewrite map_app in Hin.
  apply in_app_or in Hin. destruct Hin as [Hin|[Hin|[]]].
  - apply in_map_iff in Hin. destruct Hin as (t & Hid & Ht).
    apply filter_In in Ht. destruct Ht as [Ht _].
    apply (deleted_id_absent a (tasks s)). apply in_map_iff. exists t.
    split; [exact Hid | exact Ht].
  - apply Hab. symmetry. exact Hin.
Qed.

(** X8.  The timer that a dismissal of the snackbar starts is not cancelled by a
    later delete: when it fires after that delete, the snackbar still shows,
    the undo buffer is empty, and undo leaves the second deleted task out of
    the list.  Every event of this sequence is enabled when its turn comes. *)
Theorem stale_timer_empties_undo_buffer :
  forall (s : AppState) (a b : Task),
    In a (tasks s) ->
    In b (tasks s) ->
    id a <> id b ->
    enabledRun [Delete a; CloseSnackbar; Delete b; ClearTimer; Undo] s /\
    showSnackbar (run [Delete a; CloseSnackbar; Delete b; ClearTimer] s) = true /\
    lastDeletedTask (run [Delete a; CloseSnackbar; Delete b; ClearTimer] s) = None /\
    tasks (run [Delete a; CloseSnackbar; Delete b; ClearTimer; Undo] s) =
      tasks (run [Delete a; CloseSnackbar; Delete b] s) /\
    ~ In (id b) (map id (tasks (run [Delete a; CloseSnackbar; Delete b; ClearTimer; Undo] s))).
Proof.
  intros s a b Ha Hb Hab. split; [|split; [|split; [|split]]].
  - simpl. split; [exact Ha|]. split; [reflexivity|].
    split; [apply filter_keeps; [exact Hb | intro H; apply Hab; symmetry; exact H]|].
    split; [discriminate|]. split; [reflexivity | exact I].
  - reflexivity.
  - reflexivity.
  - reflexivity.
  - simpl. apply deleted_id_absent.
Qed.

Lemma stale_timer_empties_undo_buffer_witness :
  In (sampleTask "1" 5000 10 HIGH 200) (tasks sampleState) /\
  In (sampleTask "2" 2000 5 MEDIUM 100) (tasks sampleState) /\
  lastDeletedTask
    (run [Delete (sampleTask "1" 5000 10 HIGH 200); CloseSnackbar;
          Delete (sampleTask "2" 2000 5 MEDIUM 100); ClearTimer] sampleState) = None.
Proof.
  assert (Ha : In (sampleTask "1" 5000 10 HIGH 200) (tasks sampleState))
    by (left; reflexivity).
  assert (Hb : In (sampleTask "2" 2000 5 MEDIUM 100) (tasks sampleState))
    by (right; left; reflexivity).
  assert (Hab : id (sampleTask "1" 5000 10 HIGH 200) <>
                id (sampleTask "2" 2000 5 MEDIUM 100)) by (simpl; discriminate).
  split; [exact Ha|]. split; [exact Hb|].
  apply (stale_timer_empties_undo_buffer sampleState _ _ Ha Hb Hab).
Defined.

(** ** Delete and save by id *)

(** X9.  Delete works by id on any list: it removes every record with the id of
    the task and no other record, removes nothing when no record has the id,
    and a second delete of the same task changes the list no more. *)
Theorem handleDelete_by_id :
  forall (s : AppState) (task : Task),
    (forall t : Task,
        In t (tasks (handleDelete task s)) <-> In t (tasks s) /\ id t <> id task) /\
    (~ In (id task) (map id (tasks s)) -> tasks (handleDelete task s) = tasks s) /\
    tasks (handleDelete task (handleDelete task s)) = tasks (handleDelete task s) /\
    (List.length (tasks (handleDelete task s)) <= List.length (tasks s))%nat.
Proof.
  intros s task. split; [|split; [|split]].
  - intro t. rewrite tasks_handleDelete, filter_In, negb_true_iff, String.eqb_neq.
    reflexivity.
  - intro H. rewrite tasks_handleDelete. apply filter_other_ids. exact H.
  - rewrite (tasks_handleDelete task (handleDelete task s)).
    apply filter_other_ids. rewrite tasks_handleDelete. apply deleted_id_absent.
  - rewrite tasks_handleDelete. apply filter_length_le.
Qed.

Lemma map_createdAt_edit (editing : Task) (form : FormData) (r : number) (l : list Task) :
  map createdAt (map (fun t => if (id t =? id editing)%string
                               then mergeTaskData t form r else t) l) =
  map createdAt l.
Proof.
  induction l as [|t l IH]; simpl; [reflexivity|].
  rewrite IH. destruct (id t =? id editing)%string; reflexivity.
Qed.

Lemma edit_absent_id (editing : Task) (form : FormData) (r : number) (l : list Task) :
  ~ In (id editing) (map id l) ->
  map (fun t => if (id t =? id editing)%string then mergeTaskData t form r else t) l = l.
Proof.
  induction l as [|t l IH]; simpl; intro H; [reflexivity|].
  destruct (String.eqb_spec (id t) (id editing)) as [E|E].
  - exfalso. apply H. left. exact E.
  - rewrite IH; [reflexivity|]. intro Hin. apply H. right. exact Hin.
Qed.

(** X10.  A save never changes the id, the creation time or the position of a task
    already in the list.  Without a task being edited it appends one task with
    the new id and the current time and closes the form; with one, it keeps
    the ids and times as they are, changes nothing when no task has the edited
    id, and leaves the edit mode. *)
Theorem handleSaveTask_ids_and_times :
  forall (form : FormData) (uuid : string) (now : Z) (s : AppState),
    (editingTask s = None ->
     map id (tasks (handleSaveTask form uuid now s)) = map id (tasks s) ++ [uuid] /\
     map createdAt (tasks (handleSaveTask form uuid now s)) =
       map createdAt (tasks s) ++ [now] /\
     firstn (List.length (tasks s)) (tasks (handleSaveTask form uuid now s)) = tasks s /\
     formModalOpen (handleSaveTask form uuid now s) = false) /\
    (forall editing : Task,
        editingTask s = Some editing ->
        map id (tasks (handleSaveTask form uuid now s)) = map id (tasks s) /\
        map createdAt (tasks (handleSaveTask form uuid now s)) = map createdAt (tasks s) /\
        (~ In (id editing) (map id (tasks s)) ->
         tasks (handleSaveTask form uuid now s) = tasks s) /\
        editingTask (handleSaveTask form uuid now s) = None).
Proof.
  intros form uuid now s. split.
  - intro He. unfold handleSaveTask, formModalOpen. rewrite He. simpl.
    rewrite !map_app. simpl. split; [reflexivity|]. split; [reflexivity|]. split.
    + rewrite firstn_app, Nat.sub_diag, firstn_all. simpl. apply app_nil_r.
    + rewrite He. reflexivity.
  - intros editing He. unfold handleSaveTask. rewrite He. simpl.
    rewrite map_id_edit, map_createdAt_edit. repeat split.
    apply edit_absent_id.
Qed.

(** ** The initial load and persistence *)

(** X11.  [init] completes normally whatever the load does.  A load that resolves
    after the component was torn down changes nothing, so a first run that was
    discarded leaves no trace in what the second run does; a load that
    resolves while mounted installs the loaded list and ends the loading. *)
Theorem init_mount_guard :
  forall (r : Promise (list Task)) (s : AppState),
    (forall mounted : bool, fst (init r mounted s) = Normal tt) /\
    (forall data : list Task,
        snd (init (Resolved data) false s) = s /\
        tasks (snd (init (Resolved data) true s)) = data /\
        isLoading (snd (init (Resolved data) true s)) = false /\
        console (snd (init (Resolved data) true s)) = console s /\
        init r true (snd (init (Resolved data) false s)) = init r true s).
Proof.
  intros r s. split.
  - intros [|]; destruct r; reflexivity.
  - intro data. repeat split.
Qed.

(** X12.  Nothing is saved while the tasks load.  Once a mounted [init] ends, the
    persistence effect saves the loaded list, and the empty list after a load
    that failed; an [init] that found the component torn down leaves the
    loading on, and nothing is saved. *)
Theorem persistence_after_load :
  persistenceEffect initialState = None /\
  forall r : Promise (list Task),
    persistenceEffect (snd (init r false initialState)) = None /\
    persistenceEffect (snd (init r true initialState)) =
      Some (match r with Resolved data => data | Rejected _ => [] end).
Proof.
  split; [reflexivity|]. intros [data|error]; split; reflexivity.
Qed.

(** ** The summary on the whole list *)

Lemma sumOf_snoc (f : Task -> number) (l : list Task) (t : Task) :
  sumOf f (l ++ [t]) = js_add (sumOf f l) (f t).
Proof. unfold sumOf. rewrite fold_left_app. reflexivity. Qed.

Lemma js_add_finite_not_nan (x y : number) :
  isNaN x = false -> isFinite y = true -> isNaN (js_add x y) = false.
Proof.
  destruct x as [a| | |], y as [b| | |]; try discriminate; try reflexivity.
  intros _ _. apply round64_not_nan.
Qed.

Lemma fold_add_not_nan (f : Task -> number) (l : list Task) (acc : number) :
  isNaN acc = false ->
  Forall (fun t => isFinite (f t) = true) l ->
  isNaN (fold_left (fun a t => js_add a (f t)) l acc) = false.
Proof.
  intros Hacc Hl. revert acc Hacc.
  induction Hl as [|t l Ht Hl IH]; intros acc Hacc; cbn [fold_left]; [exact Hacc|].
  apply IH. apply js_add_finite_not_nan; assumption.
Qed.

Lemma fold_add_zero (f : Task -> number) (l : list Task) (acc : number) :
  num_eq acc (Finite 0) ->
  Forall (fun t => num_eq (f t) (Finite 0)) l ->
  num_eq (fold_left (fun a t => js_add a (f t)) l acc) (Finite 0).
Proof.
  intros Hacc Hl. revert acc Hacc.
  induction Hl as [|t l Ht Hl IH]; intros acc Hacc; cbn [fold_left]; [exact Hacc|].
  apply IH. destruct acc as [a| | |], (f t) as [b| | |]; cbn [num_eq] in *;
    try contradiction.
  cbn [js_add]. rewrite round64_zero; [reflexivity|]. rewrite Hacc, Ht. reflexivity.
Qed.

Lemma truthy_zero (x : number) : num_eq x (Finite 0) -> truthy x = false.
Proof.
  destruct x as [a| | |]; simpl; try contradiction.
  intro H. apply Qzerob_zero in H. rewrite H. reflexivity.
Qed.

Lemma js_div_truthy_not_nan (x y : number) :
  isNaN x = false -> truthy y = true ->
  isFinite x = true \/ isFinite y = true ->
  isNaN (js_div x y) = false.
Proof.
  destruct x as [a| | |], y as [b| | |]; try discriminate; try reflexivity.
  - intros _ Hb _. cbn [truthy] in Hb. apply negb_true_iff in Hb.
    cbn [js_div]. rewrite Hb. apply round64_not_nan.
  - intros _ _ _. cbn [js_div]. destruct (Qltb b 0); reflexivity.
  - intros _ _ [H|H]; discriminate H.
  - intros _ _ [H|H]; discriminate H.
  - intros _ _ _. cbn [js_div]. destruct (Qltb b 0); reflexivity.
  - intros _ _ [H|H]; discriminate H.
  - intros _ _ [H|H]; discriminate H.
Qed.

Lemma toFixed2_isNaN (x : number) : isNaN (toFixed2 x) = isNaN x.
Proof.
  destruct x as [a| | |]; try reflexivity. unfold toFixed2.
  destruct (Qle_bool (10 ^ 21) (Qabs a)); [reflexivity|].
  destruct (Qltb a 0); apply round64_not_nan.
Qed.

(** X13.  A list whose tasks all took zero time, the empty list among them, has
    efficiency [0]: the quotient by the total time is not computed. *)
Theorem summary_efficiency_zero_time :
  forall (bands : list (Q * string)) (lowest : string) (l : list Task),
    Forall (fun t => num_eq (timeTaken t) (Finite 0)) l ->
    efficiency (summary bands lowest l) = Finite 0.
Proof.
  intros bands lowest l H. cbn [summary efficiency].
  rewrite (truthy_zero (sumOf timeTaken l)); [reflexivity|].
  unfold sumOf. apply fold_add_zero; [reflexivity | exact H].
Qed.

Lemma summary_efficiency_zero_time_witness :
  Forall (fun t => num_eq (timeTaken t) (Finite 0))
    [sampleTask "1" 100 0 LOW 0; sampleTask "2" 50 0 HIGH 1] /\
  efficiency (summary sampleBands sampleLowest
                [sampleTask "1" 100 0 LOW 0; sampleTask "2" 50 0 HIGH 1]) = Finite 0.
Proof.
  assert (H : Forall (fun t => num_eq (timeTaken t) (Finite 0))
                [sampleTask "1" 100 0 LOW 0; sampleTask "2" 50 0 HIGH 1]).
  { constructor; [reflexivity|]. constructor; [reflexivity | constructor]. }
  split; [exact H|].
  exact (summary_efficiency_zero_time sampleBands sampleLowest _ H).
Defined.

(** X14.  For a list that is not empty, [avgRoi] is the sum of the [roi]
    fields divided by the number of tasks, printed by [toFixed(2)] and read
    back; when every [roi] is finite it is not [NaN]. *)
Theorem summary_avgRoi_rounded_mean :
  forall (bands : list (Q * string)) (lowest : string) (l : list Task),
    l <> [] ->
    avgRoi (summary bands lowest l) =
      toFixed2 (js_div (sumOf roi l) (js_length l)) /\
    (Forall (fun t => isFinite (roi t) = true) l ->
     isNaN (avgRoi (summary bands lowest l)) = false).
Proof.
  intros bands lowest l Hl.
  assert (Ht : truthy (js_length l) = true).
  { rewrite truthy_js_length. destruct l; [contradiction | reflexivity]. }
  assert (E : avgRoi (summary bands lowest l) =
              toFixed2 (js_div (sumOf roi l) (js_length l))).
  { cbn [summary avgRoi]. unfold rawAvgRoi. rewrite Ht. reflexivity. }
  split; [exact E|].
  intro Hroi. rewrite E, toFixed2_isNaN.
  apply js_div_truthy_not_nan; [|exact Ht | right; reflexivity].
  apply fold_add_not_nan; [reflexivity | exact Hroi].
Qed.

Lemma summary_avgRoi_rounded_mean_witness :
  tasks sampleState <> [] /\
  avgRoi (summary sampleBands sampleLowest (tasks sampleState)) =
    toFixed2 (js_div (sumOf roi (tasks sampleState)) (js_length (tasks sampleState))).
Proof.
  assert (H : tasks sampleState <> []) by (cbn; discriminate).
  split; [exact H|].
  exact (proj1 (summary_avgRoi_rounded_mean sampleBands sampleLowest
                  (tasks sampleState) H)).
Defined.

(** X15.  The totals follow the list: a save that appends a task adds the revenue
    of the form to the total revenue, and an undo adds the revenue of the
    restored task. *)
Theorem summary_totalRevenue_appended :
  forall (bands : list (Q * string)) (lowest : string) (s : AppState),
    (forall (form : FormData) (uuid : string) (now : Z),
        editingTask s = None ->
        totalRevenue (summary bands lowest (tasks (handleSaveTask form uuid now s))) =
          js_add (totalRevenue (summary bands lowest (tasks s))) (formRevenue form)) /\
    (forall t : Task,
        lastDeletedTask s = Some t ->
        totalRevenue (summary bands lowest (tasks (handleUndo s))) =
          js_add (totalRevenue (summary bands lowest (tasks s))) (revenue t)).
Proof.
  intros bands lowest s. split.
  - intros form uuid now He. unfold handleSaveTask. rewrite He.
    cbn [tasks setTasks setIsAdding summary totalRevenue].
    rewrite sumOf_snoc. reflexivity.
  - intros t Ht. cbn [summary totalRevenue]. rewrite (handleUndo_some s t Ht).
    rewrite sumOf_snoc. reflexivity.
Qed.

(** X16.  When the revenue, the time and the [roi] of every task are finite,
    the total revenue and [avgRoi] of the summary are not [NaN], and the
    efficiency is not [NaN] unless both totals have overflowed: neither
    quotient is taken with a zero divisor. *)
Theorem summary_not_nan :
  forall (bands : list (Q * string)) (lowest : string) (l : list Task),
    Forall (fun t => isFinite (revenue t) = true) l ->
    Forall (fun t => isFinite (timeTaken t) = true) l ->
    Forall (fun t => isFinite (roi t) = true) l ->
    isNaN (totalRevenue (summary bands lowest l)) = false /\
    isNaN (avgRoi (summary bands lowest l)) = false /\
    (isFinite (sumOf revenue l) = true \/ isFinite (sumOf timeTaken l) = true ->
     isNaN (efficiency (summary bands lowest l)) = false).
Proof.
  intros bands lowest l Hrev Htime Hroi.
  assert (HR : isNaN (sumOf revenue l) = false)
    by (apply fold_add_not_nan; [reflexivity | exact Hrev]).
  assert (HS : isNaN (sumOf roi l) = false)
    by (apply fold_add_not_nan; [reflexivity | exact Hroi]).
  split; [exact HR|]. split.
  - cbn [summary avgRoi]. rewrite toFixed2_isNaN. unfold rawAvgRoi.
    destruct (truthy (js_length l)) eqn:Ht; [|reflexivity].
    apply js_div_truthy_not_nan; [exact HS | exact Ht | right; reflexivity].
  - intro Hfin. cbn [summary efficiency].
    destruct (truthy (sumOf timeTaken l)) eqn:Ht; [|reflexivity].
    rewrite toFixed2_isNaN.
    apply js_div_truthy_not_nan; assumption.
Qed.

Lemma summary_not_nan_witness :
  Forall (fun t => isFinite (revenue t) = true) (tasks sampleState) /\
  isNaN (avgRoi (summary sampleBands sampleLowest (tasks sampleState))) = false.
Proof.
  assert (H1 : Forall (fun t => isFinite (revenue t) = true) (tasks sampleState))
    by (repeat constructor).
  assert (H2 : Forall (fun t => isFinite (timeTaken t) = true) (tasks sampleState))
    by (repeat constructor).
  assert (H3 : Forall (fun t => isFinite (roi t) = true) (tasks sampleState))
    by (repeat constructor).
  split; [exact H1|].
  exact (proj1 (proj2 (summary_not_nan sampleBands sampleLowest
                         (tasks sampleState) H1 H2 H3))).
Defined.

(** Sums overflow: with two tasks of revenue [2 ^ 1023] and one hour each,
    the total revenue, [avgRoi] and the efficiency are [Infinity]; when the
    total time overflows as well, the efficiency is [NaN]. *)
Example summary_overflow :
  totalRevenue (summary sampleBands sampleLowest
                  [sampleTask "1" (2 ^ 1023) 1 LOW 0; sampleTask "2" (2 ^ 1023) 1 LOW 0])
    = PosInf /\
  avgRoi (summary sampleBands sampleLowest
            [sampleTask "1" (2 ^ 1023) 1 LOW 0; sampleTask "2" (2 ^ 1023) 1 LOW 0])
    = PosInf /\
  efficiency (summary sampleBands sampleLowest
                [sampleTask "1" (2 ^ 1023) 1 LOW 0; sampleTask "2" (2 ^ 1023) 1 LOW 0])
    = PosInf /\
  efficiency (summary sampleBands sampleLowest
                [sampleTask "1" (2 ^ 1023) (2 ^ 1023) LOW 0;
                 sampleTask "2" (2 ^ 1023) (2 ^ 1023) LOW 0])
    = NaN.
Proof. vm_compute. repeat split. Qed.
